(** * django-if-active: the [ifactive] / [activeif] template tags

    A shallow embedding of [__init__.py] (the [ActiveViewMiddleware]) and of
    [templatetags/if_active.py] (the tag compilers, [ActiveNode.render], the
    walk over the route table and the memoised name index), followed by the
    properties of these functions.

    Python dictionaries with string keys are [gmap string _]; exceptions are
    an explicit error type; the module global [_view_name_cache] is threaded
    as explicit state; the template engine and the template parser of the
    framework are interfaces ([TemplateEngine], [TemplateParser]). *)

From Stdlib Require Import ZArith String Ascii List.
From stdpp Require Import base decidable option list strings gmap fin_maps.

Local Open Scope string_scope.

(** ** Python values *)

(** The values that travel as view arguments: captured URL groups, urlconf
    defaults and resolved template expressions.  [VObj] is any other object,
    known by its identity. *)
Inductive value :=
| VNone
| VInt (z : Z)
| VStr (s : string)
| VObj (addr : positive).

#[global] Instance value_eq_dec : EqDecision value.
Proof. solve_decision. Defined.

(** A callable is known by its identity only: the source compares views with
    [is].  A [view] slot holds a callable or Python's [None]. *)
Definition callable := positive.
Definition view := option callable.

(** [x is y] on view slots. *)
Definition is_ (x y : view) : bool := bool_decide (x = y).

(** Keyword arguments: a [dict] with string keys. *)
Abbreviation kwargs := (gmap string value).

(** [d.update(e)]: the entries of [e] win. *)
Definition update {V} (d e : gmap string V) : gmap string V := e ∪ d.

(** Positional arguments: Python tells a tuple from a list, and
    [(1,) == [1]] is [False]. *)
Inductive pyseq :=
| PyTuple (items : list value)
| PyList (items : list value).

#[global] Instance pyseq_eq_dec : EqDecision pyseq.
Proof. solve_decision. Defined.

Definition seq_items (s : pyseq) : list value :=
  match s with PyTuple l | PyList l => l end.

(** [list(s)] *)
Definition list_ (s : pyseq) : pyseq := PyList (seq_items s).

(** ** Exceptions and results *)

Inductive exn :=
| KeyError (msg : string)
| AttributeError (attr : string)
| IndexError
| ValueError
| TemplateSyntaxError (msg : string)
| VariableDoesNotExist (var : string)
| FrameworkError (msg : string).

Inductive result (A : Type) :=
| Ok (a : A)
| Raise (e : exn).
Arguments Ok {A} a.
Arguments Raise {A} e.

(** ** The request object *)

(** An [HttpRequest] carries arbitrary attributes.  The three attributes the
    tags read are kept apart (absent is [None], present is [Some]); [attrs]
    holds every other attribute. *)
Record HttpRequest := mkRequest {
  _view_func : option view;
  _view_args : option pyseq;
  _view_kwargs : option kwargs;
  attrs : gmap string value
}.

(** [getattr(request, '_view_func', None)] *)
Definition getattr_view_func (request : HttpRequest) : view :=
  match _view_func request with
  | Some f => f
  | None => None
  end.

(** ** [__init__.py]: [ActiveViewMiddleware.process_view] *)

(** Returns the mutated request together with the method's return value
    (Python's implicit [None], here [tt]). *)
Definition process_view (request : HttpRequest) (view_func : view)
    (view_args : pyseq) (view_kwargs : kwargs) : HttpRequest * unit :=
  let request := mkRequest (Some view_func) (_view_args request)
                           (_view_kwargs request) (attrs request) in
  let request := mkRequest (_view_func request) (Some (list_ view_args))
                           (_view_kwargs request) (attrs request) in
  let request := mkRequest (_view_func request) (_view_args request)
                           (Some view_kwargs) (attrs request) in
  (request, tt).

(** ** The route table *)

Module RegexURLPattern.
(** [_callback_str] is read with [getattr(pattern, '_callback_str', None)]:
    an absent attribute and one set to [None] are both [None] here. *)
Record t := mk {
  name : option string;
  callback : view;
  default_args : kwargs;
  _callback_str : option string
}.
End RegexURLPattern.

(** An entry of [url_patterns] is a pattern ([inl]) or a nested resolver
    ([inr], the [isinstance(pattern, RegexURLResolver)] case). *)
#[warnings="-register-all"]
Inductive RegexURLResolver :=
| mkResolver (default_kwargs : kwargs)
             (url_patterns : list (RegexURLPattern.t + RegexURLResolver)).

Definition default_kwargs (r : RegexURLResolver) : kwargs :=
  match r with mkResolver d _ => d end.

Definition url_patterns (r : RegexURLResolver)
  : list (RegexURLPattern.t + RegexURLResolver) :=
  match r with mkResolver _ ps => ps end.

(** (pattern name or path to view function) -> (view function, default args) *)
Abbreviation patterns_map := (gmap string (view * kwargs)).

(** ** [_get_patterns_map] *)

Fixpoint _get_patterns_map (resolver : RegexURLResolver)
    (default_args : option kwargs) {struct resolver} : patterns_map :=
  let default_args : kwargs :=
    match default_args with
    | None => ∅
    | Some d => d
    end in
  match resolver with
  | mkResolver _ url_patterns =>
    fold_left
      (fun (patterns_map : patterns_map) pattern =>
         let pattern_args := default_args in
         match pattern with
         | inr pattern =>
           let pattern_args := update pattern_args (default_kwargs pattern) in
           update patterns_map (_get_patterns_map pattern (Some pattern_args))
         | inl pattern =>
           let pattern_args :=
             update pattern_args (RegexURLPattern.default_args pattern) in
           let patterns_map :=
             match RegexURLPattern.name pattern with
             | Some name =>
               <[name := (RegexURLPattern.callback pattern, pattern_args)]>
                 patterns_map
             | None => patterns_map
             end in
           let callback_str := RegexURLPattern._callback_str pattern in
           match callback_str with
           | Some callback_str =>
             <[callback_str := (RegexURLPattern.callback pattern, pattern_args)]>
               patterns_map
           | None => patterns_map
           end
         end)
      url_patterns ∅
  end.

(** ** [_view_name_cache] and [_get_view_and_default_args] *)

(** The module global [_view_name_cache]: [None] until the first lookup. *)
Abbreviation cache := (option patterns_map).

Definition _view_name_cache_init : cache := None.

(** [get_resolver(None)], the root of the route table, is the argument
    [root]. *)
Definition _get_view_and_default_args (root : RegexURLResolver)
    (view_name : string) (_view_name_cache : cache)
  : result (view * kwargs) * cache :=
  let _view_name_cache : patterns_map :=
    match _view_name_cache with
    | None => _get_patterns_map root None
    | Some m => m
    end in
  match _view_name_cache !! view_name with
  | Some r => (Ok r, Some _view_name_cache)
  | None =>
    (Raise (KeyError (view_name ++ " does not match any urlpatterns")),
     Some _view_name_cache)
  end.

(** ** Python string methods used by the tag compilers *)

(** [s.split(sep)] for a one-character separator: never empty, and two
    adjacent separators give an empty piece. *)
Fixpoint split (sep : ascii) (s : string) : list string :=
  match s with
  | EmptyString => [EmptyString]
  | String c s' =>
    if decide (c = sep) then EmptyString :: split sep s'
    else match split sep s' with
         | [] => [String c EmptyString]
         | w :: ws => String c w :: ws
         end
  end.

(** [s.split(sep, 1)]: cut at the first separator only. *)
Fixpoint split_1 (sep : ascii) (s : string) : list string :=
  match s with
  | EmptyString => [EmptyString]
  | String c s' =>
    if decide (c = sep) then [EmptyString; s']
    else match split_1 sep s' with
         | [] => [String c EmptyString]
         | w :: ws => String c w :: ws
         end
  end.

(** [c in s] for a one-character [c]. *)
Fixpoint contains (c : ascii) (s : string) : bool :=
  match s with
  | EmptyString => false
  | String c' s' => if decide (c' = c) then true else contains c s'
  end.

(** [c.isspace()], the test of the characters [strip] removes.  The
    characters of a string are code points below 256, and these among them
    are whitespace: tab, line feed, vertical tab, form feed and carriage
    return (9-13), the four information separators (28-31), space (32),
    next line (133) and no-break space (160). *)
Definition isspace (c : ascii) : bool :=
  let n := nat_of_ascii c in
  (Nat.leb 9 n && Nat.leb n 13) || (Nat.leb 28 n && Nat.leb n 32)
  || Nat.eqb n 133 || Nat.eqb n 160.

Fixpoint lstrip (s : string) : string :=
  match s with
  | EmptyString => EmptyString
  | String c s' => if isspace c then lstrip s' else s
  end.

Fixpoint rstrip (s : string) : string :=
  match s with
  | EmptyString => EmptyString
  | String c s' =>
    match rstrip s' with
    | EmptyString => if isspace c then EmptyString else String c EmptyString
    | r => String c r
    end
  end.

(** [s.strip()] *)
Definition strip (s : string) : string := lstrip (rstrip s).

(** ** The framework's template engine *)

(** What the tags use of [django.template] and [django.utils.encoding]:
    contexts, compiled filter expressions and their resolution.
    [resolve_variable(path, context)] raises when the variable is missing;
    the object it returns is read as a request (an object without the
    stashed attributes is a request with none of them). *)
Class TemplateEngine := {
  TemplateContext : Type;
  FilterExpression : Type;
  resolve_variable : string → TemplateContext → result HttpRequest;
  resolve : FilterExpression → TemplateContext → value;
  smart_str : string → string
}.

Section Nodes.
Context `{TemplateEngine}.

(** Template nodes.  [TextNode] and [OtherNode] are the framework's;
    [ActiveNode] is the node class of [if_active.py], with the fields its
    constructor stores.  [inactive_nodes] defaults to [None]. *)
#[warnings="-register-all"]
Inductive Node :=
| TextNode (s : string)
| OtherNode (render : TemplateContext → result string)
| ActiveNode (request_var : string) (view_name : string)
             (args : list FilterExpression)
             (kwargs : gmap string FilterExpression)
             (active_nodes : list Node)
             (inactive_nodes : option (list Node)).

Abbreviation NodeList := (list Node).

(** [NodeList.render]: the renderings of the nodes, concatenated in order;
    an exception in a node ends the rendering. *)
Fixpoint NodeList_render
    (render : Node → TemplateContext → cache → result string * cache)
    (nodes : NodeList) (context : TemplateContext) (st : cache)
    {struct nodes} : result string * cache :=
  match nodes with
  | [] => (Ok EmptyString, st)
  | node :: nodes =>
    match render node context st with
    | (Ok bit, st) =>
      match NodeList_render render nodes context st with
      | (Ok bits, st) => (Ok (bit ++ bits), st)
      | (Raise e, st) => (Raise e, st)
      end
    | (Raise e, st) => (Raise e, st)
    end
  end.

(** [ActiveNode.render] (and [TextNode.render], which returns its text).
    [root] is [get_resolver(None)]; the last argument and the second
    component of the result are [_view_name_cache] before and after. *)
Fixpoint render (root : RegexURLResolver) (self : Node)
    (context : TemplateContext) (st : cache) {struct self}
  : result string * cache :=
  match self with
  | TextNode s => (Ok s, st)
  | OtherNode r => (r context, st)
  | ActiveNode request_var view_name args kwargs active_nodes inactive_nodes =>
    match resolve_variable request_var context with
    | Raise e => (Raise e, st)
    | Ok request =>
      match _get_view_and_default_args root view_name st with
      | (Raise e, st) => (Raise e, st)
      | (Ok (view, default_args), st) =>
        let inactive :=
          match inactive_nodes with
          | Some inactive_nodes =>
            NodeList_render (render root) inactive_nodes context st
          | None => (Ok EmptyString, st)
          end in
        if is_ (getattr_view_func request) view then
          let resolved_args := PyList (map (fun arg => resolve arg context) args) in
          match _view_args request with
          | None => (Raise (AttributeError "_view_args"), st)
          | Some request_view_args =>
            if decide (request_view_args = resolved_args) then
              let resolved_kwargs : gmap string value :=
                (fun v => resolve v context) <$> kwargs in
              let resolved_kwargs := update resolved_kwargs default_args in
              match _view_kwargs request with
              | None => (Raise (AttributeError "_view_kwargs"), st)
              | Some request_view_kwargs =>
                if decide (request_view_kwargs = resolved_kwargs) then
                  NodeList_render (render root) active_nodes context st
                else inactive
              end
            else inactive
          end
        else inactive
      end
    end
  end.

End Nodes.

Abbreviation NodeList := (list Node).

(** ** The framework's template parser *)

(** A token of the template lexer; the tags read its [contents] only. *)
Record Token := mkToken { contents : string }.

(** Computations that mutate an object of type [S] and may raise. *)
Definition M (S A : Type) : Type := S → result A * S.

Definition ret {S A} (a : A) : M S A := fun s => (Ok a, s).


Definition bind {S A B} (m : M S A) (k : A → M S B) : M S B :=
  fun s =>
    match m s with
    | (Ok a, s) => k a s
    | (Raise e, s) => (Raise e, s)
    end.

(** A pure computation that may raise, run without touching the state. *)
Definition lift {S A} (r : result A) : M S A := fun s => (r, s).

(** The same for a computation that reads the state. *)
Definition with_state {S A} (f : S → result A) : M S A := fun s => (f s, s).

#[global] Instance M_ret {S} : MRet (M S) := @ret S.
#[global] Instance M_bind {S} : MBind (M S) := fun A B k m => bind m k.

(** What the tag compilers use of [django.template.Parser].  [parse] reads
    nodes up to one of the given block tags, [next_token] pops the first
    token, [delete_first_token] drops it; all three mutate the parser.
    [compile_filter] builds a filter expression from its source text. *)
Class TemplateParser `{TemplateEngine} := {
  Parser : Type;
  parse : list string → M Parser NodeList;
  next_token : M Parser Token;
  delete_first_token : M Parser unit;
  compile_filter : Parser → string → result FilterExpression
}.

(** A [for] loop whose body may raise. *)
Fixpoint for_each {A St : Type} (xs : list A) (body : St → A → result St)
    (s : St) : result St :=
  match xs with
  | [] => Ok s
  | x :: xs =>
    match body s x with
    | Ok s => for_each xs body s
    | Raise e => Raise e
    end
  end.

Section Compilers.
Context `{TemplateParser}.

(** [_parse_url_args]: the loop state is the pair [(args, kwargs)]. *)
Definition _parse_url_args (parser : Parser) (bits : list string)
  : result (list FilterExpression * gmap string FilterExpression) :=
  for_each bits
    (fun acc bit =>
       for_each (split "," bit)
         (fun '((args, kwargs)
                : list FilterExpression * gmap string FilterExpression) arg =>
            if contains "=" arg then
              match split_1 "=" arg with
              | [k; v] =>
                let k := strip k in
                match compile_filter parser v with
                | Ok e => Ok (args, <[smart_str k := e]> kwargs)
                | Raise e => Raise e
                end
              | _ => Raise ValueError
              end
            else if negb (String.eqb arg EmptyString) then
              match compile_filter parser arg with
              | Ok e => Ok ((args ++ [e])%list, kwargs)
              | Raise e => Raise e
              end
            else Ok (args, kwargs))
         acc)
    ([], ∅).

(** [seq[i]] *)
Definition index {A} (l : list A) (i : nat) : result A :=
  match l !! i with
  | Some x => Ok x
  | None => Raise IndexError
  end.



(** The text of the node [do_activeif] emits: [class=], then the word
    [active] between two double quotes (character 34). *)
Definition class_active : string :=
  "class=" ++ String (ascii_of_nat 34) ("active" ++ String (ascii_of_nat 34) EmptyString).

Definition do_activeif (token : Token) : M Parser Node :=
  let tag_args := split " " (contents token) in
  view_name ← lift (index tag_args 1);
  '(args, kwargs) ← with_state (fun parser =>
                       _parse_url_args parser (drop 2 tag_args));
  ret (ActiveNode "request" view_name args kwargs
                  [TextNode class_active] None).

End Compilers.

(** ** Vocabulary of the properties *)

Section Vocabulary.
Context `{TemplateEngine}.

(** The output of the inactive branch: the else block, or the empty
    string when the tag has none. *)
Definition inactive_output root (inactive_nodes : option NodeList)
    context st : result string * cache :=
  match inactive_nodes with
  | Some inactive_nodes =>
    NodeList_render (render root) inactive_nodes context st
  | None => (Ok EmptyString, st)
  end.

(** The three comparisons of [ActiveNode.render]. *)
Definition checks_pass request (view : view) (default_args : kwargs)
    (args : list FilterExpression) (kwargs : gmap string FilterExpression)
    context : Prop :=
  getattr_view_func request = view
  ∧ _view_args request = Some (PyList (map (fun arg => resolve arg context) args))
  ∧ _view_kwargs request
    = Some (default_args ∪ ((fun v => resolve v context) <$> kwargs)).

#[global] Instance checks_pass_dec request view default_args args kwargs context :
  Decision (checks_pass request view default_args args kwargs context).
Proof. unfold checks_pass. apply _. Defined.

(** The comparisons of [ActiveNode.render] reach an attribute the request
    does not have: the view test passes and [_view_args] is absent, or the
    view and the positional arguments match and [_view_kwargs] is absent.
    ([request._view_args] and [request._view_kwargs] are read without a
    default.) *)
Definition reads_missing_stash request (view : view)
    (args : list FilterExpression) context : Prop :=
  getattr_view_func request = view
  ∧ (_view_args request = None
     ∨ (_view_args request
        = Some (PyList (map (fun arg => resolve arg context) args))
        ∧ _view_kwargs request = None)).

#[global] Instance reads_missing_stash_dec request view args context :
  Decision (reads_missing_stash request view args context).
Proof. unfold reads_missing_stash. apply _. Defined.

(** What a lookup reads: the cached index, or the one the route table
    gives when nothing is cached yet. *)
Definition reading (root : RegexURLResolver) (st : cache) : patterns_map :=
  default (_get_patterns_map root None) st.

(** Rendering a node leaves a cache that is there as it is. *)
Definition keeps_cache (root : RegexURLResolver) (node : Node) : Prop :=
  ∀ context (m : patterns_map), (render root node context (Some m)).2 = Some m.

(** The patterns the walk of [_get_patterns_map] reaches, in the order it
    reaches them, each with the default kwargs in force there: its own
    [default_args] over those of the enclosing nested resolvers, an inner
    resolver's over an outer one's. *)
Fixpoint visited (resolver : RegexURLResolver) (inherited : kwargs)
  : list (RegexURLPattern.t * kwargs) :=
  match resolver with
  | mkResolver _ url_patterns =>
    flat_map
      (fun entry =>
         match entry with
         | inl pattern =>
           [(pattern, RegexURLPattern.default_args pattern ∪ inherited)]
         | inr sub => visited sub (default_kwargs sub ∪ inherited)
         end)
      url_patterns
  end.

(** A pattern carries the key [k] when [k] is its name or its recorded
    callback path. *)
Definition carries (k : string) (visit : RegexURLPattern.t * kwargs) : Prop :=
  RegexURLPattern.name visit.1 = Some k
  ∨ RegexURLPattern._callback_str visit.1 = Some k.

#[global] Instance carries_dec k visit : Decision (carries k visit).
Proof. unfold carries. apply _. Defined.

(** The entry a reached pattern contributes to the index. *)
Definition entry_of (visit : RegexURLPattern.t * kwargs) : view * kwargs :=
  (RegexURLPattern.callback visit.1, visit.2).

End Vocabulary.

Section CompilerVocabulary.
Context `{TemplateParser}.

(** The arguments [_parse_url_args] goes through: the comma-separated
    pieces of each bit, in order. *)
Definition pieces (bits : list string) : list string :=
  flat_map (split ",") bits.

(** What the inner loop of [_parse_url_args] does with one argument. *)
Definition parse_arg (parser : Parser)
    (acc : list FilterExpression * gmap string FilterExpression)
    (arg : string)
  : result (list FilterExpression * gmap string FilterExpression) :=
  let '(args, kwargs) := acc in
  if contains "=" arg then
    match split_1 "=" arg with
    | [k; v] =>
      let k := strip k in
      match compile_filter parser v with
      | Ok e => Ok (args, <[smart_str k := e]> kwargs)
      | Raise e => Raise e
      end
    | _ => Raise ValueError
    end
  else if negb (String.eqb arg EmptyString) then
    match compile_filter parser arg with
    | Ok e => Ok ((args ++ [e])%list, kwargs)
    | Raise e => Raise e
    end
  else Ok (args, kwargs).

(** A positional argument: not empty and without [=]. *)
Definition is_positional (arg : string) : Prop :=
  contains "=" arg = false ∧ arg ≠ EmptyString.

#[global] Instance is_positional_dec arg : Decision (is_positional arg).
Proof. unfold is_positional. apply _. Defined.

(** A keyword argument: the key is what stands before the first [=],
    stripped; the source text of the value is all that follows it. *)
Definition keyword_of (arg : string) : option (string * string) :=
  if contains "=" arg then
    match split_1 "=" arg with
    | [k; v] => Some (smart_str (strip k), v)
    | _ => None
    end
  else None.

End CompilerVocabulary.

(** ** A small instance of the framework interfaces

    A context maps names to requests or plain values; a filter expression is
    a literal or a variable; the parser works on a list of tokens in which
    a token is a block tag when its contents are one of the tags looked
    for, and text otherwise. *)
Module Sample.

Inductive expr :=
| Lit (v : value)
| Var (x : string).

Definition context := gmap string (HttpRequest + value).

Definition bare_request : HttpRequest := mkRequest None None None ∅.

Definition sample_resolve_variable (path : string) (c : context)
  : result HttpRequest :=
  match c !! path with
  | Some (inl r) => Ok r
  | Some (inr _) => Ok bare_request
  | None => Raise (VariableDoesNotExist path)
  end.

Definition sample_resolve (e : expr) (c : context) : value :=
  match e with
  | Lit v => v
  | Var x =>
    match c !! x with
    | Some (inr v) => v
    | _ => VStr EmptyString
    end
  end.

#[global] Instance engine : TemplateEngine := {|
  TemplateContext := context;
  FilterExpression := expr;
  resolve_variable := sample_resolve_variable;
  resolve := sample_resolve;
  smart_str := fun s => s
|}.

Fixpoint sample_parse (parse_until : list string) (tokens : list Token)
  : result (list Node) * list Token :=
  match tokens with
  | [] => (Raise (TemplateSyntaxError "Unclosed tag"), [])
  | t :: rest =>
    if bool_decide (contents t ∈ parse_until) then (Ok [], tokens)
    else match sample_parse parse_until rest with
         | (Ok nodes, rest) => (Ok (TextNode (contents t) :: nodes), rest)
         | (Raise e, rest) => (Raise e, rest)
         end
  end.

Definition sample_next_token (tokens : list Token)
  : result Token * list Token :=
  match tokens with
  | [] => (Raise IndexError, [])
  | t :: rest => (Ok t, rest)
  end.

Definition sample_delete_first_token (tokens : list Token)
  : result unit * list Token :=
  match tokens with
  | [] => (Raise IndexError, [])
  | _ :: rest => (Ok tt, rest)
  end.

#[global] Instance parser : TemplateParser := {|
  Parser := list Token;
  parse := sample_parse;
  next_token := sample_next_token;
  delete_first_token := sample_delete_first_token;
  compile_filter := fun _ s => Ok (Var s)
|}.

(** A route table: two named views, and an included urlconf that passes
    [section] down to a view which overrides it. *)
Definition home : view := Some 1%positive.
Definition blog : view := Some 2%positive.
Definition post : view := Some 3%positive.

Definition urlconf : RegexURLResolver :=
  mkResolver ∅
    [ inl (RegexURLPattern.mk (Some "home") home ∅ (Some "site.views.home"));
      inr (mkResolver {[ "section" := VStr "blog"; "lang" := VStr "en" ]}
             [ inl (RegexURLPattern.mk (Some "blog") blog ∅ None);
               inl (RegexURLPattern.mk (Some "post") post
                      {[ "section" := VStr "posts" ]} None) ]) ].

(** The same name on two patterns. *)
Definition urlconf_dup : RegexURLResolver :=
  mkResolver ∅
    [ inl (RegexURLPattern.mk (Some "page") home ∅ None);
      inl (RegexURLPattern.mk (Some "page") blog ∅ None) ].

(** A request on which the middleware recorded the [blog] view. *)
Definition blog_request : HttpRequest :=
  (process_view bare_request blog (PyTuple [])
     {[ "section" := VStr "blog"; "lang" := VStr "en" ]}).1.

Definition ctx : context := {[ "request" := inl blog_request ]}.

Definition ifactive_node (view_name : string) : Node :=
  ActiveNode "request" view_name [] ∅ [TextNode "on"] (Some [TextNode "off"]).

(** A tag that asks for [section="other"] on the [blog] view, whose urlconf
    defaults already fix [section]. *)
Definition override_node : Node :=
  ActiveNode "request" "blog" [] {[ "section" := Lit (VStr "other") ]}
             [TextNode "on"] (Some [TextNode "off"]).

(** A context whose request never went through the middleware. *)
Definition bare_ctx : context := {[ "request" := inl bare_request ]}.

(** The tokens after an [ifactive] tag: a block, an else block, the end
    tag and the rest of the template. *)
Definition tokens : list Token :=
  [mkToken "hello"; mkToken "else"; mkToken "bye"; mkToken "endifactive";
   mkToken "rest"].

(** A parser like [parser], except that it refuses a filter expression
    with a [|] in it. *)
Definition strict_parser : TemplateParser := {|
  Parser := list Token;
  parse := sample_parse;
  next_token := sample_next_token;
  delete_first_token := sample_delete_first_token;
  compile_filter := fun _ s =>
    if contains "|" s then Raise (TemplateSyntaxError "Invalid filter")
    else Ok (Var s)
|}.

(** A request on which the [blog] view was written to [_view_func] and
    nothing else was recorded. *)
Definition view_only_request : HttpRequest :=
  mkRequest (Some blog) None None ∅.

Definition view_only_ctx : context := {[ "request" := inl view_only_request ]}.

(** A request on which another view than the one asked for was written to
    [_view_func], and nothing else. *)
Definition other_view_request : HttpRequest :=
  mkRequest (Some home) None None ∅.

Definition other_view_ctx : context :=
  {[ "request" := inl other_view_request ]}.

(** A request on which the [blog] view was recorded with its positional
    arguments left as a tuple. *)
Definition tuple_request : HttpRequest :=
  mkRequest (Some blog) (Some (PyTuple []))
            (Some {[ "section" := VStr "blog"; "lang" := VStr "en" ]}) ∅.

Definition tuple_ctx : context := {[ "request" := inl tuple_request ]}.

End Sample.

(** * Properties *)

(** ** The middleware *)

(** C5: [process_view] leaves on the request the view function, the
    positional arguments as a list (whatever sequence they came in) and the
    keyword arguments, under [_view_func], [_view_args] and [_view_kwargs];
    every other attribute of the request is as it was, and the hook returns
    [None]. *)
Theorem process_view_stashes_view request view_func view_args view_kwargs :
  let request' := (process_view request view_func view_args view_kwargs).1 in
  _view_func request' = Some view_func
  ∧ _view_args request' = Some (PyList (seq_items view_args))
  ∧ _view_kwargs request' = Some view_kwargs
  ∧ attrs request' = attrs request
  ∧ (process_view request view_func view_args view_kwargs).2 = tt.
Proof. by destruct request. Qed.

(** ** The memoised index *)

(** The map a lookup reads: the cached one, or the one built from the route
    table when nothing is cached yet. *)
Lemma lookup_spec root view_name st :
  _get_view_and_default_args root view_name st =
  let m := default (_get_patterns_map root None) st in
  (match m !! view_name with
   | Some r => Ok r
   | None => Raise (KeyError (view_name ++ " does not match any urlpatterns"))
   end, Some m).
Proof.
  unfold _get_view_and_default_args.
  destruct st as [m|]; simpl; by case_match.
Qed.

Lemma lookup_cache_after root view_name st :
  (_get_view_and_default_args root view_name st).2
  = Some (default (_get_patterns_map root None) st).
Proof. by rewrite lookup_spec. Qed.

(** C4: a lookup raises exactly when the name is not a key of the index, and
    then it raises [KeyError]; a name that is a key gives back its entry. *)
Theorem lookup_raises_iff_absent root view_name st :
  let m := default (_get_patterns_map root None) st in
  let r := (_get_view_and_default_args root view_name st).1 in
  ((∃ e, r = Raise e) ↔ m !! view_name = None)
  ∧ (∀ e, r = Raise e →
          e = KeyError (view_name ++ " does not match any urlpatterns"))
  ∧ (∀ entry, m !! view_name = Some entry ↔ r = Ok entry).
Proof.
  rewrite lookup_spec; simpl.
  destruct (default _ st !! view_name) as [entry|] eqn:E; simpl.
  - split_and!.
    + split; [intros [e ?]; discriminate | discriminate].
    + discriminate.
    + intros entry'; split; congruence.
  - split_and!.
    + split; eauto.
    + congruence.
    + intros entry'; split; discriminate.
Qed.

(** ** Rendering *)

Section RenderProperties.
Context `{TemplateEngine}.
Implicit Types (root : RegexURLResolver) (context : TemplateContext)
  (st : cache) (request : HttpRequest) (nodes : NodeList).

(** Induction on nodes that reaches the nodes of both blocks. *)
Lemma Node_nested_ind (P : Node → Prop) :
  (∀ s, P (TextNode s)) →
  (∀ r, P (OtherNode r)) →
  (∀ request_var view_name args kwargs active_nodes inactive_nodes,
      Forall P active_nodes →
      from_option (Forall P) True inactive_nodes →
      P (ActiveNode request_var view_name args kwargs
                    active_nodes inactive_nodes)) →
  ∀ node, P node.
Proof.
  intros HText HOther HActive.
  fix IH 1.
  intros [s|r|rv vn args kw act inact].
  - apply HText.
  - apply HOther.
  - apply HActive.
    + induction act as [|n act IHact]; constructor; [apply IH | exact IHact].
    + destruct inact as [nodes|]; [simpl | exact I].
      induction nodes as [|n nodes IHnodes]; constructor;
        [apply IH | exact IHnodes].
Qed.

Lemma render_ActiveNode root request_var view_name args kwargs
      active_nodes inactive_nodes context st :
  render root (ActiveNode request_var view_name args kwargs
                          active_nodes inactive_nodes) context st =
  match resolve_variable request_var context with
  | Raise e => (Raise e, st)
  | Ok request =>
    match _get_view_and_default_args root view_name st with
    | (Raise e, st) => (Raise e, st)
    | (Ok (view, default_args), st) =>
      if is_ (getattr_view_func request) view then
        match _view_args request with
        | None => (Raise (AttributeError "_view_args"), st)
        | Some request_view_args =>
          if decide (request_view_args
                     = PyList (map (fun arg => resolve arg context) args)) then
            match _view_kwargs request with
            | None => (Raise (AttributeError "_view_kwargs"), st)
            | Some request_view_kwargs =>
              if decide (request_view_kwargs
                         = update ((fun v => resolve v context) <$> kwargs)
                                  default_args) then
                NodeList_render (render root) active_nodes context st
              else inactive_output root inactive_nodes context st
            end
          else inactive_output root inactive_nodes context st
        end
      else inactive_output root inactive_nodes context st
    end
  end.
Proof. reflexivity. Qed.

(** Both results of a successful lookup and both stashed attributes at hand,
    the nested tests of [render] come down to one decision. *)
Lemma render_decides root request_var view_name args kwargs
      active_nodes inactive_nodes context st request view default_args st' :
  resolve_variable request_var context = Ok request →
  _get_view_and_default_args root view_name st = (Ok (view, default_args), st') →
  is_Some (_view_args request) →
  is_Some (_view_kwargs request) →
  render root (ActiveNode request_var view_name args kwargs
                          active_nodes inactive_nodes) context st =
  if decide (checks_pass request view default_args args kwargs context)
  then NodeList_render (render root) active_nodes context st'
  else inactive_output root inactive_nodes context st'.
Proof.
  intros Hreq Hview [va Hva] [vk Hvk].
  rewrite render_ActiveNode, Hreq, Hview, Hva, Hvk.
  unfold is_, update.
  destruct (decide (checks_pass request view default_args args kwargs context))
    as [(Hf & Ha & Hk)|Hno].
  - rewrite Hva in Ha. rewrite Hvk in Hk.
    injection Ha as ->. injection Hk as ->.
    rewrite bool_decide_eq_true_2 by done.
    by rewrite !decide_True by done.
  - case_bool_decide; [|done].
    case_decide; [|done].
    case_decide; [|done].
    destruct Hno. unfold checks_pass. rewrite Hva, Hvk. by subst.
Qed.

(** Every way a render of an [ifactive] node can go, once its request
    variable has resolved. *)
Lemma render_cases root request_var view_name args kwargs
      active_nodes inactive_nodes context st request :
  resolve_variable request_var context = Ok request →
  render root (ActiveNode request_var view_name args kwargs
                          active_nodes inactive_nodes) context st =
  match reading root st !! view_name with
  | None =>
    (Raise (KeyError (view_name ++ " does not match any urlpatterns")),
     Some (reading root st))
  | Some (view, default_args) =>
    if decide (checks_pass request view default_args args kwargs context)
    then NodeList_render (render root) active_nodes context
                         (Some (reading root st))
    else if decide (reads_missing_stash request view args context)
    then (Raise (AttributeError match _view_args request with
                                | Some _ => "_view_kwargs"
                                | None => "_view_args"
                                end),
          Some (reading root st))
    else inactive_output root inactive_nodes context (Some (reading root st))
  end.
Proof.
  intros Hreq. rewrite render_ActiveNode, Hreq, lookup_spec; simpl.
  fold (reading root st).
  destruct (reading root st !! view_name) as [[view default_args]|]; [|done].
  unfold is_, update.
  destruct (decide (checks_pass request view default_args args kwargs context))
    as [(Hf & Ha & Hk)|Hno].
  - rewrite bool_decide_eq_true_2, Ha, Hk by done.
    by rewrite !decide_True by done.
  - destruct (decide (reads_missing_stash request view args context))
      as [(Hf & Hm)|Hnm].
    + rewrite bool_decide_eq_true_2 by done.
      destruct Hm as [Hva|[Hva Hvk]].
      * by rewrite Hva.
      * rewrite Hva, Hvk. by rewrite decide_True by done.
    + case_bool_decide as Hf; [|done].
      destruct (_view_args request) as [va|] eqn:Hva;
        [|destruct Hnm; split; [done|by left]].
      case_decide as Hva'; [|done].
      destruct (_view_kwargs request) as [vk|] eqn:Hvk;
        [|destruct Hnm; split; [done|right; by subst]].
      case_decide as Hvk'; [|done].
      destruct Hno. unfold checks_pass. rewrite Hva, Hvk. by subst.
Qed.

(** C1, amended: a render whose request variable does not resolve raises
    what the resolution raised.  When it resolves: a target name that is no
    key of the index makes the render raise [KeyError]; for a name that is
    a key, the node renders its active block if all three checks pass (same
    view object, equal positional arguments, keyword arguments equal to the
    template's merged with the urlconf defaults), and otherwise its else
    block, or the empty string when it has none, unless the comparisons
    reach a stashed attribute the request lacks, where the render raises
    [AttributeError]. *)
Theorem render_active_iff_checks root request_var view_name args kwargs
      active_nodes inactive_nodes context st :
  let node := ActiveNode request_var view_name args kwargs
                         active_nodes inactive_nodes in
  let m := reading root st in
  (∀ e, resolve_variable request_var context = Raise e →
        render root node context st = (Raise e, st))
  ∧ (∀ request,
        resolve_variable request_var context = Ok request →
        (m !! view_name = None →
         render root node context st
         = (Raise (KeyError (view_name ++ " does not match any urlpatterns")),
            Some m))
        ∧ (∀ view default_args,
              m !! view_name = Some (view, default_args) →
              (checks_pass request view default_args args kwargs context →
               render root node context st
               = NodeList_render (render root) active_nodes context (Some m))
              ∧ (¬ checks_pass request view default_args args kwargs context →
                 ¬ reads_missing_stash request view args context →
                 render root node context st
                 = match inactive_nodes with
                   | Some inactive_nodes =>
                     NodeList_render (render root) inactive_nodes context
                                     (Some m)
                   | None => (Ok EmptyString, Some m)
                   end)
              ∧ (reads_missing_stash request view args context →
                 ¬ checks_pass request view default_args args kwargs context
                 ∧ ∃ attr, render root node context st
                           = (Raise (AttributeError attr), Some m)))).
Proof.
  intros node m. subst node m. split.
  - intros e He. by rewrite render_ActiveNode, He.
  - intros request Hreq. rewrite (render_cases _ _ _ _ _ _ _ _ _ _ Hreq).
    split; [by intros ->|].
    intros view default_args ->. split_and!.
    + intros Hc. by rewrite decide_True.
    + intros Hc Hm. by rewrite !decide_False.
    + intros Hm.
      assert (Hc : ¬ checks_pass request view default_args args kwargs context).
      { destruct Hm as (_ & [Hva|[_ Hvk]]); intros (_ & Ha & Hk); congruence. }
      split; [done|]. rewrite decide_False, decide_True by done. by eexists.
Qed.

(** C9: on a request without the [_view_func] attribute, and a target name
    that resolves to a view other than [None], [render] gives the else
    block, or the empty string when there is none, whatever [_view_args]
    and [_view_kwargs] are: present or not, they are not read. *)
Theorem render_without_view_func root request_var view_name args kwargs
      active_nodes inactive_nodes context st
      request_view_args request_view_kwargs other f default_args st' :
  resolve_variable request_var context
  = Ok (mkRequest None request_view_args request_view_kwargs other) →
  _get_view_and_default_args root view_name st
  = (Ok (Some f, default_args), st') →
  render root (ActiveNode request_var view_name args kwargs
                          active_nodes inactive_nodes) context st
  = match inactive_nodes with
    | Some inactive_nodes =>
      NodeList_render (render root) inactive_nodes context st'
    | None => (Ok EmptyString, st')
    end.
Proof.
  intros Hreq Hview.
  by rewrite render_ActiveNode, Hreq, Hview.
Qed.

(** C8: where the view and the positional arguments match, the dictionary
    compared with the request's [_view_kwargs] holds, under every key of the
    urlconf default args, the default value, also when the tag gives that
    key a value of its own; under any other key it holds the resolved value
    of the tag's keyword argument. *)
Theorem default_args_override_tag_kwargs root request_var view_name args kwargs
      active_nodes inactive_nodes context st request default_args st'
      request_view_kwargs :
  resolve_variable request_var context = Ok request →
  _get_view_and_default_args root view_name st
  = (Ok (getattr_view_func request, default_args), st') →
  _view_args request = Some (PyList (map (fun arg => resolve arg context) args)) →
  _view_kwargs request = Some request_view_kwargs →
  let compared : gmap string value :=
    update ((fun e => resolve e context) <$> kwargs) default_args in
  (∀ k, compared !! k
        = match default_args !! k with
          | Some v => Some v
          | None => (fun e => resolve e context) <$> kwargs !! k
          end)
  ∧ render root (ActiveNode request_var view_name args kwargs
                            active_nodes inactive_nodes) context st
    = if decide (request_view_kwargs = compared)
      then NodeList_render (render root) active_nodes context st'
      else inactive_output root inactive_nodes context st'.
Proof.
  intros Hreq Hview Hva Hvk compared. subst compared.
  split.
  - intros k. unfold update. rewrite lookup_union, lookup_fmap.
    destruct (default_args !! k), (kwargs !! k); reflexivity.
  - rewrite render_ActiveNode, Hreq, Hview, Hva, Hvk.
    unfold is_. rewrite bool_decide_eq_true_2 by reflexivity.
    rewrite decide_True by reflexivity. reflexivity.
Qed.

(** *** The cache across renders *)

Lemma NodeList_render_keeps_cache root nodes context (m : patterns_map) :
  Forall (keeps_cache root) nodes →
  (NodeList_render (render root) nodes context (Some m)).2 = Some m.
Proof.
  induction 1 as [|node nodes Hnode _ IH]; simpl; [done|].
  specialize (Hnode context m).
  destruct (render root node context (Some m)) as [[bit|e] st1];
    simpl in Hnode; subst st1; [|done].
  destruct (NodeList_render (render root) nodes context (Some m))
    as [[bits|e] st2]; simpl in IH; by subst st2.
Qed.

Lemma render_keeps_cache root node : keeps_cache root node.
Proof.
  induction node as [s|r|rv vn args kw act inact IHact IHinact]
    using Node_nested_ind; intros context m; [done|done|].
  rewrite render_ActiveNode.
  destruct (resolve_variable rv context) as [request|e]; [|done].
  rewrite lookup_spec; simpl.
  assert (Hinact : (inactive_output root inact context (Some m)).2 = Some m).
  { destruct inact as [nodes|]; [|done].
    by apply NodeList_render_keeps_cache. }
  destruct (m !! vn) as [[view default_args]|]; [|done].
  destruct (is_ _ _); [|done].
  destruct (_view_args request); [|done].
  case_decide; [|done].
  destruct (_view_kwargs request); [|done].
  case_decide; [|done].
  by apply NodeList_render_keeps_cache.
Qed.

(** Two caches with the same reading give the same output, and a render
    leaves the reading as it found it. *)
Lemma render_reading root node context st st' :
  reading root st = reading root st' →
  (render root node context st).1 = (render root node context st').1
  ∧ reading root (render root node context st).2 = reading root st.
Proof.
  intros Hst. destruct node as [s|r|rv vn args kw act inact]; [done|done|].
  pose proof (render_keeps_cache root
    (ActiveNode rv vn args kw act inact) context (reading root st)) as Hk.
  rewrite render_ActiveNode in Hk. rewrite !render_ActiveNode.
  destruct (resolve_variable rv context) as [request|e]; [|done].
  rewrite lookup_spec in Hk. rewrite !lookup_spec. simpl in *.
  fold (reading root st) (reading root st').
  rewrite <- Hst. split; [done|].
  by rewrite Hk.
Qed.

Lemma render_again root node context st :
  render root node context (render root node context st).2
  = render root node context st.
Proof.
  destruct (render_reading root node context
              (render root node context st).2 st) as [H1 H2].
  { by apply (render_reading root node context st st). }
  apply injective_projections; [done|].
  destruct (render root node context st).2 as [m|] eqn:E.
  - apply render_keeps_cache.
  - destruct st as [m|]; [|by rewrite E].
    by rewrite render_keeps_cache in E.
Qed.

(** C3: the first lookup builds the index from the route table and caches
    it; with an index cached, a lookup reads that index and leaves it in
    place whatever the route table is, so any run of lookups after the
    first ends with the index the first one built; and rendering a node of
    any kind leaves a cached index in place. *)
Theorem index_built_at_most_once root view_name :
  (_get_view_and_default_args root view_name _view_name_cache_init).2
  = Some (_get_patterns_map root None)
  ∧ (∀ (m : patterns_map) root' name,
        _get_view_and_default_args root' name (Some m)
        = (match m !! name with
           | Some entry => Ok entry
           | None => Raise (KeyError (name ++ " does not match any urlpatterns"))
           end, Some m))
  ∧ (∀ names,
        fold_left (fun st name => (_get_view_and_default_args root name st).2)
                  names
                  (_get_view_and_default_args root view_name
                                              _view_name_cache_init).2
        = Some (_get_patterns_map root None))
  ∧ (∀ node context (m : patterns_map),
        (render root node context (Some m)).2 = Some m).
Proof.
  split_and!.
  - by rewrite lookup_spec.
  - intros m root' name. by rewrite lookup_spec.
  - intros names. rewrite lookup_spec; simpl.
    induction names as [|name names IH]; simpl; [done|].
    by rewrite lookup_spec.
  - intros node context m. apply render_keeps_cache.
Qed.

(** C7: a render of an [ifactive] node that returns text returns the output
    of its active block or that of its inactive branch; with the request
    resolved, the name found and both stashed attributes present it does
    return, with exactly one of these two results; and a second render of
    the same node in the same context, on the cache the first one left,
    gives the same result and leaves the same cache. *)
Theorem render_single_decision root request_var view_name args kwargs
      active_nodes inactive_nodes context st :
  let node := ActiveNode request_var view_name args kwargs
                         active_nodes inactive_nodes in
  let st' := Some (reading root st) in
  (∀ text, (render root node context st).1 = Ok text →
           render root node context st
           = NodeList_render (render root) active_nodes context st'
           ∨ render root node context st
             = inactive_output root inactive_nodes context st')
  ∧ (∀ request entry,
        resolve_variable request_var context = Ok request →
        reading root st !! view_name = Some entry →
        is_Some (_view_args request) →
        is_Some (_view_kwargs request) →
        render root node context st
        = if decide (checks_pass request entry.1 entry.2 args kwargs context)
          then NodeList_render (render root) active_nodes context st'
          else inactive_output root inactive_nodes context st')
  ∧ render root node context (render root node context st).2
    = render root node context st.
Proof.
  intros node st'. subst node st'. split_and!.
  - intros text. rewrite render_ActiveNode.
    destruct (resolve_variable request_var context) as [request|e]; [|done].
    rewrite lookup_spec; simpl. fold (reading root st).
    destruct (reading root st !! view_name) as [[view default_args]|]; [|done].
    destruct (is_ _ _); [|by right].
    destruct (_view_args request); [|done].
    case_decide; [|by right].
    destruct (_view_kwargs request); [|done].
    case_decide; [by left|by right].
  - intros request [view default_args] Hreq Hentry Hva Hvk.
    apply render_decides; [done| |done|done].
    rewrite lookup_spec; simpl. fold (reading root st). by rewrite Hentry.
  - apply render_again.
Qed.

End RenderProperties.

(** ** The tag compilers *)


Lemma split_no_sep sep s : contains sep s = false → split sep s = [s].
Proof.
  induction s as [|c s IH]; simpl; [done|].
  case_decide; [done|]. intros Hs. by rewrite IH.
Qed.

Lemma split_pieces_no_sep sep s :
  Forall (fun w => contains sep w = false) (split sep s).
Proof.
  induction s as [|c s IH]; simpl; [by repeat constructor|].
  case_decide as Hc; [by constructor|].
  destruct (split sep s) as [|w ws]; [by repeat constructor; simpl; case_decide|].
  apply Forall_cons in IH as [Hw Hws]. constructor; [|done].
  simpl. by case_decide.
Qed.

(** [s.split(sep, 1)] on a string with the separator: two parts, cut at the
    first separator. *)
Lemma split_1_contains sep s :
  contains sep s = true →
  ∃ k v, split_1 sep s = [k; v]
         ∧ s = (k ++ String sep v)%string
         ∧ contains sep k = false.
Proof.
  induction s as [|c s IH]; simpl; [done|].
  case_decide as Hc.
  - intros _. subst c. by exists EmptyString, s.
  - intros (k & v & Hsplit & -> & Hk)%IH. rewrite Hsplit.
    exists (String c k), v. split_and!; [done|done|]. simpl. by case_decide.
Qed.

Lemma for_each_app {A St} (xs ys : list A) (body : St → A → result St) s :
  for_each (xs ++ ys) body s
  = match for_each xs body s with
    | Ok s => for_each ys body s
    | Raise e => Raise e
    end.
Proof.
  revert s. induction xs as [|x xs IH]; intros s; simpl; [done|].
  by destruct (body s x).
Qed.

Lemma for_each_singleton {A St} (x : A) (body : St → A → result St) s :
  for_each [x] body s = body s x.
Proof. simpl. by destruct (body s x). Qed.

Lemma for_each_ext {A St} (xs : list A) (body body' : St → A → result St) s :
  (∀ s x, body s x = body' s x) →
  for_each xs body s = for_each xs body' s.
Proof.
  intros Hext. revert s. induction xs as [|x xs IH]; intros s; simpl; [done|].
  rewrite Hext. by destruct (body' s x).
Qed.

(** A loop whose body is a loop is one loop. *)
Lemma for_each_flat_map {A B St} (f : A → list B) (body : St → B → result St)
      (xs : list A) s :
  for_each xs (fun acc x => for_each (f x) body acc) s
  = for_each (flat_map f xs) body s.
Proof.
  revert s. induction xs as [|x xs IH]; intros s; simpl; [done|].
  rewrite for_each_app. by destruct (for_each (f x) body s).
Qed.

Section CompilerProperties.
Context `{TemplateParser}.



(** The two nested loops of [_parse_url_args] are one loop over the
    pieces. *)
Lemma parse_url_args_loop parser bits :
  _parse_url_args parser bits
  = for_each (pieces bits) (parse_arg parser) ([], ∅).
Proof.
  rewrite <- (for_each_flat_map (split ",") (parse_arg parser)).
  unfold _parse_url_args. apply for_each_ext. intros acc bit.
  apply for_each_ext. by intros [args kwargs] arg.
Qed.

Lemma parse_arg_raises parser acc arg e :
  parse_arg parser acc arg = Raise e →
  ∃ text, compile_filter parser text = Raise e.
Proof.
  unfold parse_arg. destruct acc as [args kwargs].
  destruct (contains "=" arg) eqn:Heq.
  - destruct (split_1_contains _ _ Heq) as (k & v & -> & _ & _).
    destruct (compile_filter parser v) eqn:Hv; [done|].
    intros [= ->]. by exists v.
  - destruct (negb _); [|done].
    destruct (compile_filter parser arg) eqn:Ha; [done|].
    intros [= ->]. by exists arg.
Qed.




(** C6, amended: the node [do_activeif] builds reads the request from the
    context variable [request], and a render of it in which that variable
    does not resolve raises what the resolution raised.  When it resolves:
    a view name that is no key of the index makes the render raise
    [KeyError]; for a name that is a key, the render gives the text
    [class=] followed by [active] in double quotes if the three checks
    pass, and otherwise the empty string, unless the comparisons reach a
    stashed attribute the request lacks, where it raises
    [AttributeError]. *)
Theorem activeif_emits_class token parser view_name args kwargs
      root context st :
  let tag_args := split " " (contents token) in
  let m := reading root st in
  tag_args !! 1 = Some view_name →
  _parse_url_args parser (drop 2 tag_args) = Ok (args, kwargs) →
  ∃ node,
    do_activeif token parser = (Ok node, parser)
    ∧ (∀ e, resolve_variable "request" context = Raise e →
            render root node context st = (Raise e, st))
    ∧ (∀ request,
          resolve_variable "request" context = Ok request →
          (m !! view_name = None →
           render root node context st
           = (Raise (KeyError (view_name ++ " does not match any urlpatterns")),
              Some m))
          ∧ (∀ view default_args,
                m !! view_name = Some (view, default_args) →
                (checks_pass request view default_args args kwargs context →
                 render root node context st = (Ok class_active, Some m))
                ∧ (¬ checks_pass request view default_args args kwargs context →
                   ¬ reads_missing_stash request view args context →
                   render root node context st = (Ok EmptyString, Some m))
                ∧ (reads_missing_stash request view args context →
                   ¬ checks_pass request view default_args args kwargs context
                   ∧ ∃ attr, render root node context st
                             = (Raise (AttributeError attr), Some m)))).
Proof.
  intros tag_args m Hname Hargs. subst m.
  exists (ActiveNode "request" view_name args kwargs [TextNode class_active] None).
  split_and!.
  - unfold do_activeif. fold tag_args.
    unfold mbind, M_bind, bind, lift, index, with_state, mret, M_ret, ret.
    by rewrite Hname, Hargs.
  - intros e He. by rewrite render_ActiveNode, He.
  - intros request Hreq. rewrite (render_cases _ _ _ _ _ _ _ _ _ _ Hreq).
    split; [by intros ->|].
    intros view default_args ->. split_and!.
    + intros Hc. by rewrite decide_True.
    + intros Hc Hm. by rewrite !decide_False.
    + intros Hm.
      assert (Hc : ¬ checks_pass request view default_args args kwargs context).
      { destruct Hm as (_ & [Hva|[_ Hvk]]); intros (_ & Ha & Hk); congruence. }
      split; [done|]. rewrite decide_False, decide_True by done. by eexists.
Qed.

End CompilerProperties.

(** ** The walk over the route table *)

(** Induction on resolvers that reaches the nested resolvers. *)
Lemma RegexURLResolver_nested_ind (P : RegexURLResolver → Prop) :
  (∀ d url_patterns,
      Forall (fun entry => match entry with
                           | inl _ => True
                           | inr sub => P sub
                           end) url_patterns →
      P (mkResolver d url_patterns)) →
  ∀ resolver, P resolver.
Proof.
  intros Hstep. fix IH 1. intros [d ps]. apply Hstep.
  induction ps as [|[p|sub] ps IHps]; constructor;
    [exact I | exact IHps | apply IH | exact IHps].
Qed.

(** One more round of the loop of [_get_patterns_map]. *)
Lemma patterns_map_snoc d0 ps entry (d : kwargs) :
  _get_patterns_map (mkResolver d0 (ps ++ [entry])) (Some d) =
  let patterns_map := _get_patterns_map (mkResolver d0 ps) (Some d) in
  match entry with
  | inr sub =>
    _get_patterns_map sub (Some (default_kwargs sub ∪ d)) ∪ patterns_map
  | inl p =>
    let e := (RegexURLPattern.callback p, RegexURLPattern.default_args p ∪ d) in
    let patterns_map :=
      match RegexURLPattern.name p with
      | Some n => <[n := e]> patterns_map
      | None => patterns_map
      end in
    match RegexURLPattern._callback_str p with
    | Some c => <[c := e]> patterns_map
    | None => patterns_map
    end
  end.
Proof. simpl. rewrite fold_left_app. by destruct entry. Qed.

Lemma visited_snoc d0 ps entry (d : kwargs) :
  visited (mkResolver d0 (ps ++ [entry])) d =
  (visited (mkResolver d0 ps) d ++
   match entry with
   | inl p => [(p, RegexURLPattern.default_args p ∪ d)]
   | inr sub => visited sub (default_kwargs sub ∪ d)
   end)%list.
Proof.
  simpl. rewrite flat_map_app. simpl. by rewrite app_nil_r.
Qed.

Lemma patterns_map_None resolver :
  _get_patterns_map resolver None = _get_patterns_map resolver (Some ∅).
Proof. by destruct resolver. Qed.

(** The entry under a key is that of the last reached pattern carrying it. *)
Lemma patterns_map_lookup resolver :
  ∀ (d : kwargs) k,
    _get_patterns_map resolver (Some d) !! k
    = entry_of <$> last (filter (carries k) (visited resolver d)).
Proof.
  induction resolver as [d0 ps IH] using RegexURLResolver_nested_ind.
  intros d k.
  induction ps as [|entry ps IHps] using rev_ind; [done|].
  apply Forall_app in IH as [IHfront IHentry].
  rewrite Forall_singleton in IHentry.
  specialize (IHps IHfront).
  rewrite patterns_map_snoc, visited_snoc, filter_app, last_app.
  set (m := _get_patterns_map (mkResolver d0 ps) (Some d)) in *.
  set (vs := visited (mkResolver d0 ps) d) in *.
  clearbody m vs. cbv zeta. destruct entry as [p|sub].
  - destruct p as [n cb da c]; simpl.
    destruct (decide (carries k (RegexURLPattern.mk n cb da c, da ∪ d)))
      as [Hk|Hk].
    + rewrite filter_cons_True by done. simpl. unfold entry_of; simpl.
      destruct Hk as [Hk|Hk]; simpl in Hk; subst.
      * destruct c as [c|]; [|by rewrite lookup_insert_eq].
        destruct (decide (c = k)) as [->|];
          [by rewrite lookup_insert_eq|].
        by rewrite lookup_insert_ne, lookup_insert_eq.
      * by rewrite lookup_insert_eq.
    + rewrite filter_cons_False by done. simpl. rewrite <- IHps.
      unfold carries in Hk; simpl in Hk.
      destruct n as [n|], c as [c|];
        rewrite ?lookup_insert_ne; naive_solver.
  - rewrite lookup_union, IHentry, IHps.
    by destruct (last (filter (carries k) (visited sub _))),
               (last (filter (carries k) vs)).
Qed.

(** C2, amended: under every key, the index holds the callback and the
    merged default kwargs (the pattern's own over those of the enclosing
    nested resolvers, inner over outer) of the last pattern of the walk
    that has the key as its name or as its recorded callback path, and
    nothing under a key no pattern has.  So every such key of a reached
    pattern is a key of the index, and it maps to that pattern's own
    callback and merged defaults whenever the patterns that share the key
    agree on them. *)
Theorem patterns_map_last_wins root k :
  _get_patterns_map root None !! k
  = entry_of <$> last (filter (carries k) (visited root ∅))
  ∧ (∀ visit,
        visit ∈ visited root ∅ →
        carries k visit →
        is_Some (_get_patterns_map root None !! k)
        ∧ ((∀ visit', visit' ∈ visited root ∅ → carries k visit' →
                      entry_of visit' = entry_of visit) →
           _get_patterns_map root None !! k
           = Some (RegexURLPattern.callback visit.1, visit.2))).
Proof.
  rewrite patterns_map_None, patterns_map_lookup. split; [done|].
  intros visit Hin Hk.
  destruct (last (filter (carries k) (visited root ∅))) as [v|] eqn:Hlast.
  - split; [by eexists|]. intros Hsame. simpl. f_equal.
    apply last_Some_elem_of, list_elem_of_filter in Hlast as [Hkv Hinv].
    by apply Hsame.
  - apply last_None in Hlast.
    assert (visit ∈ filter (carries k) (visited root ∅)) as Hf
      by (by apply list_elem_of_filter).
    rewrite Hlast in Hf. by apply not_elem_of_nil in Hf.
Qed.

(** ** More on rendering: the middleware and the tags together *)

Section RenderTogether.
Context `{TemplateEngine}.
Implicit Types (root : RegexURLResolver) (context : TemplateContext)
  (st : cache) (request : HttpRequest).


(** X2: positional arguments stashed as a tuple never match, whatever
    their items: the tag compares them with a list.  (This is what
    [list(view_args)] in the middleware is for.) *)
Theorem tuple_stash_is_never_active root request_var view_name args kwargs
      active_nodes inactive_nodes context st request items
      view default_args st' :
  resolve_variable request_var context = Ok request →
  _get_view_and_default_args root view_name st = (Ok (view, default_args), st') →
  _view_args request = Some (PyTuple items) →
  render root (ActiveNode request_var view_name args kwargs
                          active_nodes inactive_nodes) context st
  = inactive_output root inactive_nodes context st'.
Proof.
  intros Hreq Hview Hva.
  rewrite render_ActiveNode, Hreq, Hview, Hva.
  destruct (is_ _ _); [|done].
  by rewrite decide_False by discriminate.
Qed.

(** X3: once the view test passes, the stashed arguments are read without
    a default: on a request that passes it and has no [_view_args], the
    render raises [AttributeError], and so it does when the positional
    arguments match and [_view_kwargs] is missing. *)
Theorem render_missing_stash_raises root request_var view_name args kwargs
      active_nodes inactive_nodes context st request default_args st' :
  resolve_variable request_var context = Ok request →
  _get_view_and_default_args root view_name st
  = (Ok (getattr_view_func request, default_args), st') →
  let node := ActiveNode request_var view_name args kwargs
                         active_nodes inactive_nodes in
  (_view_args request = None →
   render root node context st = (Raise (AttributeError "_view_args"), st'))
  ∧ (_view_args request
     = Some (PyList (map (fun arg => resolve arg context) args)) →
     _view_kwargs request = None →
     render root node context st = (Raise (AttributeError "_view_kwargs"), st')).
Proof.
  intros Hreq Hview node. subst node.
  rewrite render_ActiveNode, Hreq, Hview.
  unfold is_. rewrite bool_decide_eq_true_2 by done.
  split.
  - by intros ->.
  - intros -> ->. by rewrite decide_True by done.
Qed.

(** X4: what a tag says under a keyword that the urlconf defaults of its
    view fix has no effect on the render: two tags that differ in such
    keywords only render alike. *)
Theorem shadowed_tag_kwargs_are_ignored root request_var view_name args
      (kwargs kwargs' : gmap string FilterExpression)
      active_nodes inactive_nodes context st view
      (default_args : gmap string value) :
  reading root st !! view_name = Some (view, default_args) →
  (∀ k, default_args !! k = None → kwargs !! k = kwargs' !! k) →
  render root (ActiveNode request_var view_name args kwargs
                          active_nodes inactive_nodes) context st
  = render root (ActiveNode request_var view_name args kwargs'
                            active_nodes inactive_nodes) context st.
Proof.
  intros Hentry Hsame.
  rewrite !render_ActiveNode.
  destruct (resolve_variable request_var context) as [request|e]; [|done].
  rewrite lookup_spec; simpl. fold (reading root st). rewrite Hentry.
  replace (update ((fun v => resolve v context) <$> kwargs) default_args)
    with (update ((fun v => resolve v context) <$> kwargs') default_args);
    [done|].
  apply map_eq. intros k. unfold update.
  rewrite !lookup_union, !lookup_fmap.
  destruct (default_args !! k) eqn:Hk.
  - by destruct (kwargs !! k), (kwargs' !! k).
  - by rewrite (Hsame k Hk).
Qed.

(** X5: a render whose request variable does not resolve raises what the
    resolution raised and leaves the cache alone; any other render, also
    one that raises [KeyError] or [AttributeError], leaves the index
    cached. *)
Theorem render_leaves_index_cached root request_var view_name args kwargs
      active_nodes inactive_nodes context st :
  let node := ActiveNode request_var view_name args kwargs
                         active_nodes inactive_nodes in
  (∀ e, resolve_variable request_var context = Raise e →
        render root node context st = (Raise e, st))
  ∧ (∀ request, resolve_variable request_var context = Ok request →
                (render root node context st).2 = Some (reading root st)).
Proof.
  intros node. subst node. split.
  - intros e He. by rewrite render_ActiveNode, He.
  - intros request Hreq.
    pose proof (render_keeps_cache root
      (ActiveNode request_var view_name args kwargs active_nodes inactive_nodes)
      context (reading root st)) as Hk.
    rewrite render_ActiveNode, Hreq in Hk. rewrite render_ActiveNode, Hreq.
    rewrite lookup_spec in Hk. rewrite lookup_spec. exact Hk.
Qed.

End RenderTogether.

(** ** More on the walk over the route table *)

Lemma visited_app d0 ps1 ps2 (d : kwargs) :
  visited (mkResolver d0 (ps1 ++ ps2)) d
  = (visited (mkResolver d0 ps1) d ++ visited (mkResolver d0 ps2) d)%list.
Proof. simpl. apply flat_map_app. Qed.

(** What the walk hands to a pattern extends the pattern's own defaults and
    has a value under every inherited key. *)
Lemma visited_defaults resolver :
  ∀ (d : kwargs) p a,
    (p, a) ∈ visited resolver d →
    RegexURLPattern.default_args p ⊆ a ∧ dom d ⊆ dom a.
Proof.
  induction resolver as [d0 ps IH] using RegexURLResolver_nested_ind.
  intros d p a. simpl.
  induction ps as [|entry ps IHps]; simpl; [intros Hin; inversion Hin|].
  apply Forall_cons in IH as [IHentry IHrest].
  rewrite elem_of_app. intros [Hin|Hin]; [|exact (IHps IHrest Hin)].
  destruct entry as [q|sub].
  - apply list_elem_of_singleton in Hin. injection Hin as -> ->. split.
    + apply map_union_subseteq_l.
    + rewrite dom_union_L. apply union_subseteq_r.
  - destruct (IHentry _ _ _ Hin) as [Hown Hdom]. split; [done|].
    rewrite dom_union_L in Hdom. intros x Hx.
    apply Hdom, elem_of_union. by right.
Qed.

(** X6: a first lookup accepts a name exactly when some pattern reached by
    the walk has it as its name or as its recorded callback path; any other
    name raises. *)
Theorem lookup_accepts_carried_names root view_name :
  (∃ entry, (_get_view_and_default_args root view_name None).1 = Ok entry)
  ↔ ∃ visit, visit ∈ visited root ∅ ∧ carries view_name visit.
Proof.
  rewrite lookup_spec; simpl.
  rewrite patterns_map_None, patterns_map_lookup.
  destruct (last (filter (carries view_name) (visited root ∅)))
    as [v|] eqn:Hlast; simpl.
  - split; [intros _|by eauto].
    apply last_Some_elem_of, list_elem_of_filter in Hlast as [Hk Hin].
    by exists v.
  - split; [by intros [entry ?]|].
    intros (visit & Hin & Hk). apply last_None in Hlast.
    assert (visit ∈ filter (carries view_name) (visited root ∅)) as Hf
      by (by apply list_elem_of_filter).
    rewrite Hlast in Hf. by apply not_elem_of_nil in Hf.
Qed.

(** X7: the index invents nothing: each of its entries is the callback of a
    pattern reached by the walk that has the key as its name or callback
    path, and the default kwargs of the entry extend that pattern's own
    [default_args] and have a value under every key inherited from the
    resolvers around it. *)
Theorem patterns_map_entries_come_from_patterns root (d : kwargs) k cb a :
  _get_patterns_map root (Some d) !! k = Some (cb, a) →
  ∃ p, (p, a) ∈ visited root d
       ∧ carries k (p, a)
       ∧ RegexURLPattern.callback p = cb
       ∧ RegexURLPattern.default_args p ⊆ a
       ∧ dom d ⊆ dom a.
Proof.
  rewrite patterns_map_lookup. intros Hentry.
  destruct (last (filter (carries k) (visited root d))) as [[p a']|] eqn:Hlast;
    [|done].
  injection Hentry as <- <-.
  apply last_Some_elem_of, list_elem_of_filter in Hlast as [Hk Hin].
  exists p. destruct (visited_defaults _ _ _ _ Hin). by split_and!.
Qed.

(** X8: the index of a list of patterns followed by another is the index of
    the first updated with the index of the second: later patterns win. *)
Theorem patterns_map_app d0 ps1 ps2 default_args :
  _get_patterns_map (mkResolver d0 (ps1 ++ ps2)) default_args
  = update (_get_patterns_map (mkResolver d0 ps1) default_args)
           (_get_patterns_map (mkResolver d0 ps2) default_args).
Proof.
  assert (Hsome : ∀ d : kwargs,
    _get_patterns_map (mkResolver d0 (ps1 ++ ps2)) (Some d)
    = update (_get_patterns_map (mkResolver d0 ps1) (Some d))
             (_get_patterns_map (mkResolver d0 ps2) (Some d))).
  { intros d. apply map_eq. intros k. unfold update.
    rewrite lookup_union, !patterns_map_lookup, visited_app, filter_app, last_app.
    by destruct (last (filter (carries k) (visited (mkResolver d0 ps2) d))),
                (last (filter (carries k) (visited (mkResolver d0 ps1) d))). }
  destruct default_args as [d|]; [apply Hsome|].
  rewrite !patterns_map_None. apply Hsome.
Qed.

(** X9: including a urlconf that adds no default kwargs gives the index of
    its patterns written in its place. *)
Theorem include_without_defaults_is_inlining d0 ps1 sub ps2 default_args :
  _get_patterns_map (mkResolver d0 (ps1 ++ inr (mkResolver ∅ sub) :: ps2))
                    default_args
  = _get_patterns_map (mkResolver d0 (ps1 ++ sub ++ ps2)) default_args.
Proof.
  assert (Hsome : ∀ d : kwargs,
    _get_patterns_map (mkResolver d0 (ps1 ++ inr (mkResolver ∅ sub) :: ps2))
                      (Some d)
    = _get_patterns_map (mkResolver d0 (ps1 ++ sub ++ ps2)) (Some d)).
  { intros d. apply map_eq. intros k.
    rewrite !patterns_map_lookup. do 2 f_equal. f_equal.
    simpl. rewrite !flat_map_app. simpl.
    by rewrite (left_id_L ∅ (∪)). }
  destruct default_args as [d|]; [apply Hsome|].
  rewrite !patterns_map_None. apply Hsome.
Qed.

(** ** More on the tag compilers *)

Section MoreCompilerProperties.
Context `{TemplateParser}.

(** X10: [_parse_url_args] raises nothing of its own: whatever it raises,
    [parser.compile_filter] raised on some text (the unpacking of
    [arg.split('=', 1)] never fails, as the argument has an [=]). *)
Theorem parse_url_args_raises_only_compile_errors parser bits e :
  _parse_url_args parser bits = Raise e →
  ∃ text, compile_filter parser text = Raise e.
Proof.
  rewrite parse_url_args_loop. generalize
    (([], ∅) : list FilterExpression * gmap string FilterExpression).
  induction (pieces bits) as [|arg args IH]; intros acc; simpl; [done|].
  destruct (parse_arg parser acc arg) as [acc'|e'] eqn:Harg; [apply IH|].
  intros [= ->]. by eapply parse_arg_raises.
Qed.

Lemma parse_arg_empty parser acc : parse_arg parser acc EmptyString = Ok acc.
Proof. by destruct acc. Qed.

Lemma parse_arg_total parser (compile : string → FilterExpression) args kwargs arg :
  (∀ text, compile_filter parser text = Ok (compile text)) →
  parse_arg parser (args, kwargs) arg
  = Ok ((args ++ (compile <$> filter is_positional [arg]))%list,
        foldl (fun m p => <[p.1 := compile p.2]> m) kwargs
              (omap keyword_of [arg])).
Proof.
  intros Hc.
  destruct (contains "=" arg) eqn:Heq.
  - rewrite filter_cons_False by (intros [? _]; congruence).
    unfold parse_arg. simpl. unfold keyword_of. rewrite Heq.
    destruct (split_1_contains _ _ Heq) as (k & v & -> & _ & _).
    rewrite Hc. simpl. by rewrite app_nil_r.
  - destruct (String.eqb_spec arg EmptyString) as [Hnil|Hne].
    + rewrite filter_cons_False by (by intros [_ ?]).
      unfold parse_arg. simpl. unfold keyword_of. rewrite Heq.
      apply String.eqb_eq in Hnil. rewrite Hnil. simpl.
      by rewrite app_nil_r.
    + rewrite filter_cons_True by done.
      unfold parse_arg. simpl. unfold keyword_of. rewrite Heq.
      apply String.eqb_neq in Hne. rewrite Hne. simpl.
      by rewrite Hc.
Qed.

Lemma foldl_insert_list_to_map {V W} (g : W → V) (l : list (string * W))
      (m : gmap string V) :
  foldl (fun m p => <[p.1 := g p.2]> m) m l
  = list_to_map (reverse (prod_map id g <$> l)) ∪ m.
Proof.
  revert m. induction l as [|[k w] l IH]; intros m; simpl.
  - by rewrite (left_id_L ∅ (∪)).
  - rewrite IH, reverse_cons, list_to_map_app; simpl.
    rewrite <- (assoc_L (∪)). f_equal.
    by rewrite insert_empty, <- insert_union_singleton_l.
Qed.

(** X11: when [parser.compile_filter] accepts every text,
    [_parse_url_args] returns the positional arguments in the order they
    are written (empty pieces dropped), and a dictionary that gives each
    key, stripped, the value of the last piece [key=value] with that key;
    the value text is everything after the first [=]. *)
Theorem parse_url_args_closed_form parser bits
      (compile : string → FilterExpression) :
  (∀ text, compile_filter parser text = Ok (compile text)) →
  _parse_url_args parser bits
  = Ok (compile <$> filter is_positional (pieces bits),
        list_to_map
          (reverse (prod_map id compile <$> omap keyword_of (pieces bits)))).
Proof.
  intros Hc. rewrite parse_url_args_loop.
  assert (Hloop : ∀ l args (kwargs : gmap string FilterExpression),
    for_each l (parse_arg parser) (args, kwargs)
    = Ok ((args ++ (compile <$> filter is_positional l))%list,
          foldl (fun m p => <[p.1 := compile p.2]> m) kwargs
                (omap keyword_of l))).
  { induction l as [|arg l IH]; intros args kwargs.
    - simpl. by rewrite app_nil_r.
    - change (arg :: l) with ([arg] ++ l)%list.
      rewrite for_each_app, filter_app, fmap_app, omap_app, foldl_app.
      rewrite for_each_singleton.
      rewrite (parse_arg_total _ compile) by done. rewrite IH.
      by rewrite <- (assoc_L (++)). }
  rewrite Hloop, foldl_insert_list_to_map. simpl.
  by rewrite (right_id_L ∅ (∪)).
Qed.

Lemma flat_map_split_no_sep sep (l : list string) :
  Forall (fun w => contains sep w = false) l →
  flat_map (split sep) l = l.
Proof.
  induction 1 as [|w l Hw _ IH]; simpl; [done|].
  by rewrite split_no_sep, IH.
Qed.

Lemma pieces_pieces bits : pieces (pieces bits) = pieces bits.
Proof.
  unfold pieces. induction bits as [|bit bits IH]; simpl; [done|].
  rewrite flat_map_app, IH. f_equal.
  apply flat_map_split_no_sep, split_pieces_no_sep.
Qed.

Lemma for_each_skip_empty parser l acc :
  for_each (filter (fun b => b ≠ EmptyString) l) (parse_arg parser) acc
  = for_each l (parse_arg parser) acc.
Proof.
  revert acc. induction l as [|arg l IH]; intros acc; [done|].
  destruct (decide (arg = EmptyString)) as [->|Hne].
  - rewrite filter_cons_False by naive_solver. simpl.
    by rewrite parse_arg_empty.
  - rewrite filter_cons_True by done. simpl.
    by destruct (parse_arg parser acc arg).
Qed.

Lemma pieces_skip_empty bits :
  filter (fun b => b ≠ EmptyString)
         (pieces (filter (fun b => b ≠ EmptyString) bits))
  = filter (fun b => b ≠ EmptyString) (pieces bits).
Proof.
  unfold pieces. induction bits as [|bit bits IH]; [done|].
  destruct (decide (bit = EmptyString)) as [->|Hne].
  - rewrite filter_cons_False by naive_solver. simpl.
    by rewrite filter_cons_False by naive_solver.
  - rewrite filter_cons_True by done. simpl.
    by rewrite !filter_app, IH.
Qed.

(** X12: a comma and a cut between bits separate arguments alike, and
    empty bits (as two spaces in a row in the tag leave them) change
    nothing: [_parse_url_args] gives the same on the bits, on their
    comma-separated pieces, and on the bits without the empty ones. *)
Theorem parse_url_args_separators parser bits :
  _parse_url_args parser (pieces bits) = _parse_url_args parser bits
  ∧ _parse_url_args parser (filter (fun b => b ≠ EmptyString) bits)
    = _parse_url_args parser bits.
Proof.
  rewrite !parse_url_args_loop. split.
  - by rewrite pieces_pieces.
  - rewrite <- for_each_skip_empty, pieces_skip_empty.
    apply for_each_skip_empty.
Qed.

(** X13: [do_activeif] never touches the parser, and on a tag with no
    argument at all (no space in its contents) it raises [IndexError],
    where [do_ifactive] raises [TemplateSyntaxError]. *)
Theorem do_activeif_without_name token parser :
  (do_activeif token parser).2 = parser
  ∧ (contains " " (contents token) = false →
     do_activeif token parser = (Raise IndexError, parser)).
Proof.
  unfold do_activeif, mbind, M_bind, bind, lift, index, with_state,
    mret, M_ret, ret.
  split.
  - destruct (split " " (contents token) !! 1); [|done].
    by destruct (_parse_url_args parser _) as [[args kwargs]|e].
  - intros Hno. by rewrite (split_no_sep _ _ Hno).
Qed.


End MoreCompilerProperties.

(** ** The theorems at work on the sample instance *)

Lemma render_active_iff_checks_witness :
  render Sample.urlconf (Sample.ifactive_node "blog") Sample.ctx None
  = (Ok "on", Some (_get_patterns_map Sample.urlconf None))
  ∧ render Sample.urlconf (Sample.ifactive_node "home") Sample.ctx None
    = (Ok "off", Some (_get_patterns_map Sample.urlconf None))
  ∧ render Sample.urlconf (Sample.ifactive_node "blog")
           Sample.other_view_ctx None
    = (Ok "off", Some (_get_patterns_map Sample.urlconf None))
  ∧ render Sample.urlconf (Sample.ifactive_node "nope") Sample.ctx None
    = (Raise (KeyError "nope does not match any urlpatterns"),
       Some (_get_patterns_map Sample.urlconf None)).
Proof.
  split_and!.
  - refine (proj1 (proj2 (proj2 (render_active_iff_checks
                     Sample.urlconf "request" "blog" [] ∅
                     [TextNode "on"] (Some [TextNode "off"]) Sample.ctx None)
                     Sample.blog_request _) Sample.blog
                     {[ "section" := VStr "blog"; "lang" := VStr "en" ]} _) _).
    + reflexivity.
    + vm_compute. reflexivity.
    + vm_compute. auto.
  - refine (proj1 (proj2 (proj2 (proj2 (render_active_iff_checks
                     Sample.urlconf "request" "home" [] ∅
                     [TextNode "on"] (Some [TextNode "off"]) Sample.ctx None)
                     Sample.blog_request _) Sample.home ∅ _)) _ _).
    + reflexivity.
    + vm_compute. reflexivity.
    + intros [Hview _]. vm_compute in Hview. discriminate.
    + intros [Hview _]. vm_compute in Hview. discriminate.
  - refine (proj1 (proj2 (proj2 (proj2 (render_active_iff_checks
                     Sample.urlconf "request" "blog" [] ∅
                     [TextNode "on"] (Some [TextNode "off"])
                     Sample.other_view_ctx None)
                     Sample.other_view_request _) Sample.blog
                     {[ "section" := VStr "blog"; "lang" := VStr "en" ]} _))
                  _ _).
    + reflexivity.
    + vm_compute. reflexivity.
    + intros [Hview _]. vm_compute in Hview. discriminate.
    + intros [Hview _]. vm_compute in Hview. discriminate.
  - refine (proj1 (proj2 (render_active_iff_checks
                     Sample.urlconf "request" "nope" [] ∅
                     [TextNode "on"] (Some [TextNode "off"]) Sample.ctx None)
                     Sample.blog_request _) _).
    + reflexivity.
    + vm_compute. reflexivity.
Defined.

(** C1 as stated fails on a name that is no key of the index: the checks do
    not pass, and [render] raises [KeyError] where the claim has it render
    the else block. *)
Lemma render_unknown_name_raises :
  _get_patterns_map Sample.urlconf None !! "nope" = None
  ∧ (render Sample.urlconf (Sample.ifactive_node "nope") Sample.ctx None).1
    = Raise (KeyError "nope does not match any urlpatterns")
  ∧ (inactive_output Sample.urlconf (Some [TextNode "off"]) Sample.ctx
       (Some (_get_patterns_map Sample.urlconf None))).1 = Ok "off".
Proof. vm_compute. auto. Qed.

(** C2 as stated fails when two patterns share a name: the first pattern
    named [page] is in the route table, and the index maps [page] to the
    callback of the second. *)
Lemma shared_name_keeps_last_pattern :
  inl (RegexURLPattern.mk (Some "page") Sample.home ∅ None)
    ∈ url_patterns Sample.urlconf_dup
  ∧ _get_patterns_map Sample.urlconf_dup None !! "page" = Some (Sample.blog, ∅)
  ∧ _get_patterns_map Sample.urlconf_dup None !! "page" ≠ Some (Sample.home, ∅).
Proof.
  split_and!.
  - apply list_elem_of_here.
  - vm_compute. reflexivity.
  - vm_compute. discriminate.
Qed.

Lemma patterns_map_last_wins_witness :
  _get_patterns_map Sample.urlconf None !! "post"
  = Some (Sample.post, {[ "section" := VStr "posts"; "lang" := VStr "en" ]}).
Proof.
  etrans; [exact (proj1 (patterns_map_last_wins Sample.urlconf "post"))|].
  vm_compute. reflexivity.
Defined.

Lemma render_without_view_func_witness :
  render Sample.urlconf (Sample.ifactive_node "blog") Sample.bare_ctx None
  = (Ok "off", Some (_get_patterns_map Sample.urlconf None)).
Proof.
  refine (render_without_view_func
            Sample.urlconf "request" "blog" [] ∅
            [TextNode "on"] (Some [TextNode "off"]) Sample.bare_ctx None
            None None ∅ 2%positive
            {[ "section" := VStr "blog"; "lang" := VStr "en" ]}
            (Some (_get_patterns_map Sample.urlconf None)) _ _).
  - reflexivity.
  - vm_compute. reflexivity.
Defined.

Lemma default_args_override_tag_kwargs_witness :
  render Sample.urlconf Sample.override_node Sample.ctx None
  = (Ok "on", Some (_get_patterns_map Sample.urlconf None)).
Proof.
  etrans.
  - refine (proj2 (default_args_override_tag_kwargs
                     Sample.urlconf "request" "blog" []
                     {[ "section" := Sample.Lit (VStr "other") ]}
                     [TextNode "on"] (Some [TextNode "off"]) Sample.ctx None
                     Sample.blog_request
                     {[ "section" := VStr "blog"; "lang" := VStr "en" ]}
                     (Some (_get_patterns_map Sample.urlconf None))
                     {[ "section" := VStr "blog"; "lang" := VStr "en" ]}
                     _ _ _ _)).
    + reflexivity.
    + vm_compute. reflexivity.
    + reflexivity.
    + reflexivity.
  - vm_compute. reflexivity.
Defined.

Lemma render_single_decision_witness :
  render Sample.urlconf (Sample.ifactive_node "blog") Sample.ctx
         (render Sample.urlconf (Sample.ifactive_node "blog") Sample.ctx None).2
  = render Sample.urlconf (Sample.ifactive_node "blog") Sample.ctx None.
Proof.
  exact (proj2 (proj2 (render_single_decision
                         Sample.urlconf "request" "blog" [] ∅
                         [TextNode "on"] (Some [TextNode "off"])
                         Sample.ctx None))).
Defined.



Lemma activeif_emits_class_witness :
  ∃ node,
    do_activeif (mkToken "activeif blog") Sample.tokens
    = (Ok node, Sample.tokens)
    ∧ render Sample.urlconf node Sample.ctx None
      = (Ok class_active, Some (_get_patterns_map Sample.urlconf None))
    ∧ render Sample.urlconf node Sample.other_view_ctx None
      = (Ok EmptyString, Some (_get_patterns_map Sample.urlconf None)).
Proof.
  destruct (activeif_emits_class (H0 := Sample.parser)
              (mkToken "activeif blog") Sample.tokens "blog" [] ∅
              Sample.urlconf Sample.ctx None)
    as (node & Hnode & _ & Hrender).
  - reflexivity.
  - vm_compute. reflexivity.
  - destruct (activeif_emits_class (H0 := Sample.parser)
                (mkToken "activeif blog") Sample.tokens "blog" [] ∅
                Sample.urlconf Sample.other_view_ctx None)
      as (node' & Hnode' & _ & Hrender').
    + reflexivity.
    + vm_compute. reflexivity.
    + assert (node' = node) as -> by congruence.
      exists node. split_and!; [exact Hnode| |].
      * refine (proj1 (proj2 (Hrender Sample.blog_request _) Sample.blog
                  {[ "section" := VStr "blog"; "lang" := VStr "en" ]} _) _).
        -- reflexivity.
        -- vm_compute. reflexivity.
        -- vm_compute. auto.
      * refine (proj1 (proj2 (proj2 (Hrender' Sample.other_view_request _)
                  Sample.blog
                  {[ "section" := VStr "blog"; "lang" := VStr "en" ]} _)) _ _).
        -- reflexivity.
        -- vm_compute. reflexivity.
        -- intros [Hview _]. vm_compute in Hview. discriminate.
        -- intros [Hview _]. vm_compute in Hview. discriminate.
Defined.

(** C6 as stated fails on a name that is no key of the index: the view is
    not active, and rendering the node raises [KeyError] where the claim has
    it give the empty string. *)
Lemma activeif_unknown_name_raises :
  do_activeif (mkToken "activeif nope") Sample.tokens
  = (Ok (ActiveNode "request" "nope" [] ∅ [TextNode class_active] None),
     Sample.tokens)
  ∧ (render Sample.urlconf
            (ActiveNode "request" "nope" [] ∅ [TextNode class_active] None)
            Sample.ctx None).1
    = Raise (KeyError "nope does not match any urlpatterns").
Proof. vm_compute. auto. Qed.


Lemma tuple_stash_is_never_active_witness :
  render Sample.urlconf (Sample.ifactive_node "blog") Sample.tuple_ctx None
  = (Ok "off", Some (_get_patterns_map Sample.urlconf None)).
Proof.
  refine (tuple_stash_is_never_active
            Sample.urlconf "request" "blog" [] ∅
            [TextNode "on"] (Some [TextNode "off"]) Sample.tuple_ctx None
            Sample.tuple_request [] Sample.blog
            {[ "section" := VStr "blog"; "lang" := VStr "en" ]}
            (Some (_get_patterns_map Sample.urlconf None)) _ _ _).
  - reflexivity.
  - vm_compute. reflexivity.
  - reflexivity.
Defined.

Lemma render_missing_stash_raises_witness :
  render Sample.urlconf (Sample.ifactive_node "blog")
         Sample.view_only_ctx None
  = (Raise (AttributeError "_view_args"),
     Some (_get_patterns_map Sample.urlconf None)).
Proof.
  refine (proj1 (render_missing_stash_raises
                   Sample.urlconf "request" "blog" [] ∅
                   [TextNode "on"] (Some [TextNode "off"])
                   Sample.view_only_ctx None Sample.view_only_request
                   {[ "section" := VStr "blog"; "lang" := VStr "en" ]}
                   (Some (_get_patterns_map Sample.urlconf None)) _ _) _).
  - reflexivity.
  - vm_compute. reflexivity.
  - reflexivity.
Defined.

Lemma shadowed_tag_kwargs_are_ignored_witness :
  render Sample.urlconf Sample.override_node Sample.ctx None
  = render Sample.urlconf (Sample.ifactive_node "blog") Sample.ctx None.
Proof.
  refine (shadowed_tag_kwargs_are_ignored
            Sample.urlconf "request" "blog" []
            {[ "section" := Sample.Lit (VStr "other") ]} ∅
            [TextNode "on"] (Some [TextNode "off"]) Sample.ctx None
            Sample.blog {[ "section" := VStr "blog"; "lang" := VStr "en" ]}
            _ _).
  - vm_compute. reflexivity.
  - intros k Hk.
    destruct (decide (k = "section")) as [->|Hne]; [discriminate Hk|].
    by rewrite lookup_singleton_ne.
Defined.

Lemma patterns_map_entries_come_from_patterns_witness :
  ∃ p, (p, {[ "section" := VStr "posts"; "lang" := VStr "en" ]})
         ∈ visited Sample.urlconf ∅
       ∧ carries "post"
           (p, {[ "section" := VStr "posts"; "lang" := VStr "en" ]})
       ∧ RegexURLPattern.callback p = Sample.post
       ∧ RegexURLPattern.default_args p
         ⊆ {[ "section" := VStr "posts"; "lang" := VStr "en" ]}
       ∧ dom (∅ : gmap string value)
         ⊆ dom ({[ "section" := VStr "posts"; "lang" := VStr "en" ]}
                : gmap string value).
Proof.
  apply (patterns_map_entries_come_from_patterns Sample.urlconf ∅ "post").
  vm_compute. reflexivity.
Defined.

Lemma parse_url_args_raises_only_compile_errors_witness :
  ∃ text,
    compile_filter (TemplateParser := Sample.strict_parser) [] text
    = Raise (TemplateSyntaxError "Invalid filter").
Proof.
  apply (parse_url_args_raises_only_compile_errors
           (H0 := Sample.strict_parser) [] ["a,k=v|x"; "b"]).
  vm_compute. reflexivity.
Defined.

Lemma parse_url_args_closed_form_witness :
  _parse_url_args (H0 := Sample.parser) []
    ["a,,k = 1"; ""; "b," ++ String (ascii_of_nat 31) "k=x=y"]
  = Ok ([Sample.Var "a"; Sample.Var "b"], {[ "k" := Sample.Var "x=y" ]}).
Proof.
  etrans.
  - apply (parse_url_args_closed_form (H0 := Sample.parser) []
             ["a,,k = 1"; ""; "b," ++ String (ascii_of_nat 31) "k=x=y"]
             Sample.Var).
    reflexivity.
  - vm_compute. reflexivity.
Defined.
